(** * Divide-and-conquer SVD wrappers and the benchmark harness

    Source: [src/2013-12-09-divide-and-concquer-svd.cpp].

    The file exports four functions, [baseSVD], [dcSVD], [cxBaseSVD] and
    [cxDcSVD].  Each declares three local Armadillo objects [U], [V], [S],
    calls [arma::svd(U, S, V, X, method)] as a statement (its [bool] result
    is dropped) and returns [S] by value.  Armadillo itself is an external
    library: it enters the development as a record [library] of functions.

    The objects live in a store; a C++ function is a computation over that
    store that either returns a value or throws. *)

From Stdlib Require Import ZArith QArith.
From Stdlib Require Import Floats.PrimFloat.
From stdpp Require Import base gmap strings list sorting.

Close Scope Q_scope.
Set Default Proof Using "Type".

(** ** Armadillo objects *)

Module Arma.

Definition double : Set := float.

(** [std::complex<double>] *)
Record cx_double : Set := Cx { cx_re : double; cx_im : double }.

(** [arma::Mat<eT>]: dimensions and the column-major element array. *)
Record Mat (eT : Type) : Type :=
  MkMat { n_rows : nat; n_cols : nat; mem : list eT }.
Arguments MkMat {eT} _ _ _.
Arguments n_rows {eT} _.
Arguments n_cols {eT} _.
Arguments mem {eT} _.

Definition mat : Type := Mat double.
Definition cx_mat : Type := Mat cx_double.

(** [arma::vec] is [Col<double>]: its elements are real for every element
    type of the decomposed matrix. *)
Definition vec : Type := list double.

(** A default-constructed matrix or vector is empty. *)
Definition empty_mat {eT} : Mat eT := MkMat 0 0 [].
Definition empty_vec : vec := [].

(** What a store cell can hold. *)
Inductive obj : Type :=
| OMat (m : mat)
| OCxMat (m : cx_mat)
| OVec (v : vec).

Definition loc : Set := positive.

(** C++ exceptions that can leave a library call. *)
Inductive exn : Set :=
| logic_error (what : string)
| runtime_error (what : string)
| bad_alloc.

(** ** Computations over the store

    [None] is an access that C++ typing rules out (a reference that does
    not designate an object of the declared type). *)

Inductive res (A : Type) : Type :=
| Val (a : A)
| Exn (e : exn).
Arguments Val {A} _.
Arguments Exn {A} _.

Definition M (A : Type) : Type := gmap loc obj → option (res A * gmap loc obj).

Definition ret {A} (a : A) : M A := λ h, Some (Val a, h).

Definition throw {A} (e : exn) : M A := λ h, Some (Exn e, h).

Definition bind {A B} (c : M A) (k : A → M B) : M B := λ h,
  match c h with
  | Some (Val a, h') => k a h'
  | Some (Exn e, h') => Some (Exn e, h')
  | None => None
  end.

Declare Scope cpp_scope.
Delimit Scope cpp_scope with cpp.
Notation "'let*' x ':=' c 'in' k" := (bind c (λ x, k))
  (at level 10, x name, c at level 100, k at level 200) : cpp_scope.
Notation "c ;; k" := (bind c (λ _, k))
  (at level 100, k at level 200, right associativity) : cpp_scope.

(** A local object: constructed at a fresh location when the declaration
    is reached, destroyed when the scope is left, normally or by an
    exception. *)
Definition local {A} (init : obj) (body : loc → M A) : M A := λ h,
  let l := fresh (dom h) in
  match body l (<[l := init]> h) with
  | Some (r, h') => Some (r, delete l h')
  | None => None
  end.

Notation "'declare' x ':=' o 'in' body" := (local o (λ x, body))
  (at level 100, x name, o at next level, right associativity) : cpp_scope.

(** Reading a vector through a reference of type [arma::vec]. *)
Definition read_vec (l : loc) : M vec := λ h,
  match h !! l with
  | Some (OVec v) => Some (Val v, h)
  | _ => None
  end.

(** ** The element types [arma::svd] is instantiated at *)

Class Elt (eT : Type) : Type := {
  to_obj : Mat eT → obj;
  of_obj : obj → option (Mat eT);
  of_to_obj : ∀ m, of_obj (to_obj m) = Some m;
  to_of_obj : ∀ o m, of_obj o = Some m → o = to_obj m
}.

#[export] Instance Elt_double : Elt double.
Proof.
  refine {| to_obj := OMat;
            of_obj o := match o with OMat m => Some m | _ => None end |}.
  - done.
  - by intros [] ? [= ->].
Defined.

#[export] Instance Elt_cx_double : Elt cx_double.
Proof.
  refine {| to_obj := OCxMat;
            of_obj o := match o with OCxMat m => Some m | _ => None end |}.
  - done.
  - by intros [] ? [= ->].
Defined.

Definition read_mat {eT} `{Elt eT} (l : loc) : M (Mat eT) := λ h,
  match h !! l with
  | Some o => match of_obj o with Some m => Some (Val m, h) | None => None end
  | None => None
  end.

Definition write_mat {eT} `{Elt eT} (l : loc) (m : Mat eT) : M unit := λ h,
  match h !! l with
  | Some o => match of_obj (eT := eT) o with
              | Some _ => Some (Val tt, <[l := to_obj m]> h)
              | None => None
              end
  | None => None
  end.

Definition write_vec (l : loc) (v : vec) : M unit := λ h,
  match h !! l with
  | Some (OVec _) => Some (Val tt, <[l := OVec v]> h)
  | _ => None
  end.

(** ** The external library

    What one call of the decomposition does with a matrix and a method
    string: it throws, or it returns its [bool] status together with the
    contents it leaves in the three output objects. *)
Inductive svd_result (eT : Type) : Type :=
| svd_throws (e : exn)
| svd_returns (status : bool) (U : Mat eT) (S : vec) (V : Mat eT).
Arguments svd_throws {eT} _.
Arguments svd_returns {eT} _ _ _ _.

Record library : Type := {
  svd_real : string → mat → svd_result double;
  svd_cx : string → cx_mat → svd_result cx_double
}.

Class SvdElt (eT : Type) : Type := {
  svd_elt :: Elt eT;
  lib_svd : library → string → Mat eT → svd_result eT
}.

#[export] Instance SvdElt_double : SvdElt double :=
  {| lib_svd := svd_real |}.
#[export] Instance SvdElt_cx_double : SvdElt cx_double :=
  {| lib_svd := svd_cx |}.

Section Wrappers.

Context (lib : library).

Local Open Scope cpp_scope.

(** [bool arma::svd(Mat<eT>& U, Col<pod>& S, Mat<eT>& V, const Mat<eT>& X,
    const char* method)]: reads [X], writes [U], [S], [V], returns the
    status. *)
Definition svd {eT} `{SvdElt eT} (U S V X : loc) (method : string) : M bool :=
  let* x := read_mat (eT := eT) X in
  match lib_svd lib method x with
  | svd_throws e => throw e
  | svd_returns status u s v =>
      write_mat U u ;; write_vec S s ;; write_mat V v ;; ret status
  end.

(** Lines 20-25. *)
Definition baseSVD (X : loc) : M vec :=
  declare U := OMat empty_mat in
  declare V := OMat empty_mat in
  declare S := OVec empty_vec in
  svd (eT := double) U S V X "standard" ;;
  read_vec S.

(** Lines 28-33. *)
Definition dcSVD (X : loc) : M vec :=
  declare U := OMat empty_mat in
  declare V := OMat empty_mat in
  declare S := OVec empty_vec in
  svd (eT := double) U S V X "dc" ;;
  read_vec S.

(** Lines 54-59. *)
Definition cxBaseSVD (X : loc) : M vec :=
  declare U := OCxMat empty_mat in
  declare V := OCxMat empty_mat in
  declare S := OVec empty_vec in
  svd (eT := cx_double) U S V X "standard" ;;
  read_vec S.

(** Lines 62-67. *)
Definition cxDcSVD (X : loc) : M vec :=
  declare U := OCxMat empty_mat in
  declare V := OCxMat empty_mat in
  declare S := OVec empty_vec in
  svd (eT := cx_double) U S V X "dc" ;;
  read_vec S.

End Wrappers.

(** What a wrapper hands to its caller, given what the library call did:
    a thrown exception passes through, a returned status is dropped and
    the content left in [S] is the result. *)
Definition surfaced {eT} (r : svd_result eT) : res vec :=
  match r with
  | svd_throws e => Exn e
  | svd_returns _ _ s _ => Val s
  end.

(** The library call reported that the decomposition failed. *)
Definition svd_failed {eT} (r : svd_result eT) : Prop :=
  match r with
  | svd_throws _ => True
  | svd_returns status _ _ _ => status = false
  end.

(** ** Vocabulary of the statements *)

Local Open Scope cpp_scope.

(** The common shape of the four exported functions. *)
Definition wrapper (lib : library) {eT} `{SvdElt eT} (method : string) (X : loc)
  : M vec :=
  declare U := to_obj (empty_mat (eT := eT)) in
  declare V := to_obj (empty_mat (eT := eT)) in
  declare S := OVec empty_vec in
  svd lib (eT := eT) U S V X method ;;
  read_vec S.

(** [frame L c]: a run of [c] changes the store at most at the locations
    of [L]. *)
Definition frame {A} (L : gset loc) (c : M A) : Prop :=
  ∀ h r h', c h = Some (r, h') → ∀ l, l ∉ L → h' !! l = h !! l.

(** Two calls of [f] on stores [h1] and [h2] give the same result and
    leave each store as it was. *)
Definition pure_on (f : loc → M vec) (X : loc) (h1 h2 : gmap loc obj) : Prop :=
  ∃ r, f X h1 = Some (r, h1) ∧ f X h2 = Some (r, h2).

(** The outcome of a call is a vector of [double]s or an exception; the
    call is never stuck. *)
Definition returns_real_vec (c : option (res (list double) * gmap loc obj)) : Prop :=
  ∃ h', (∃ s : list double, c = Some (Val s, h')) ∨ (∃ e : exn, c = Some (Exn e, h')).

(** The outcome [c] of a wrapper against the outcome [r] of its library
    call: an exception passes through; a returned status, [true] or
    [false], is dropped and the content of [S] is returned. *)
Definition drops_status {eT} (c : option (res vec * gmap loc obj))
    (r : svd_result eT) (h : gmap loc obj) : Prop :=
  (∀ e, r = svd_throws e → c = Some (Exn e, h)) ∧
  (∀ status u s v, r = svd_returns status u s v → c = Some (Val s, h)).

(** The call returned and [X] still designates [o]. *)
Definition keeps_input (c : option (res vec * gmap loc obj)) (X : loc) (o : obj) : Prop :=
  ∃ r h', c = Some (r, h') ∧ h' !! X = Some o.

End Arma.

(** ** The benchmark harness

    The source file contains no harness: its R blocks hand the wrappers to
    the external [microbenchmark] package.  The registry, the timing loop
    and the reporter below follow sections 3, 4 and 7 of the specification
    sentence by sentence. *)

Module Harness.

Import Arma.

(** Modelled from the spec: the element type of a Matrix (section 3,
    "element type real or complex"); no such type is declared in the
    source. *)
Inductive elem_type : Set := RealElt | ComplexElt.

(** Modelled from the spec: the error taxonomy of section 7, which the
    source does not define.  [KernelExecutionError] carries the kernel
    name, the repetition index and the wrapped cause. *)
Inductive error (Cause : Type) : Type :=
| DuplicateNameError (name : string)
| UnknownKernelError (name : string)
| UnsupportedTypeError (name : string) (ty : elem_type)
| InvalidArgumentError
| KernelExecutionError (name : string) (repetition : nat) (cause : Cause)
| EmptySampleError.
Arguments DuplicateNameError {Cause} _.
Arguments UnknownKernelError {Cause} _.
Arguments UnsupportedTypeError {Cause} _ _.
Arguments InvalidArgumentError {Cause}.
Arguments KernelExecutionError {Cause} _ _ _.
Arguments EmptySampleError {Cause}.

(** Modelled from the spec: the Benchmark Result of section 3 (count, min,
    max, mean, median), absent from the source.  Durations are whole
    nanoseconds; mean and median are exact rationals. *)
Record BenchmarkResult : Set := {
  count : nat;
  min : N;
  max : N;
  mean : Q;
  median : Q
}.

(** A duration as a rational number of nanoseconds. *)
Definition N2Q (n : N) : Q := inject_Z (Z.of_N n).

(** Modelled from the spec: the sum behind the "arithmetic mean" of
    section 4.3; the source computes no statistics. *)
Definition sum_samples (l : list N) : N := foldr N.add 0%N l.

(** Modelled from the spec: the median of section 4.3, "for even-length
    sequences, average the two central values"; the argument is the sorted
    sample sequence. *)
Definition median_of (sorted : list N) : Q :=
  let n := length sorted in
  if Nat.even n
  then ((N2Q (nth (n / 2 - 1) sorted 0%N) + N2Q (nth (n / 2) sorted 0%N)) / 2)%Q
  else N2Q (nth (n / 2) sorted 0%N).

(** Modelled from the spec: [summarize] of section 4.3, absent from the
    source: count, min, max, arithmetic mean and median of the samples,
    [EmptySampleError] on zero samples. *)
Definition summarize {Cause} (samples : list N) : error Cause + BenchmarkResult :=
  match samples with
  | [] => inl EmptySampleError
  | x :: l =>
      inr {| count := length samples;
             min := foldr N.min x l;
             max := foldr N.max x l;
             mean := (N2Q (sum_samples samples) / N2Q (N.of_nat (length samples)))%Q;
             median := median_of (merge_sort N.le samples) |}
  end.

Section Model.

(** [W] is the state of the process (library state, time); [Matrix] is the
    caller's matrix as the harness borrows it; [Cause] is what a failing
    kernel raises. *)
Context {W Matrix Cause : Type}.

(** Reading of the monotonic clock, in nanoseconds. *)
Context (clock : W → N).

Context (elem_type_of : Matrix → elem_type).

(** Modelled from the spec: a Kernel of section 3, a function from Matrix
    to singular values that may fail, together with the element types it
    declares (section 4.1); the source registers nothing. *)
Record Kernel : Type := {
  invoke : Matrix → W → (Cause + vec) * W;
  supports : elem_type → bool
}.

(** Modelled from the spec: [register] of section 4.1, absent from the
    source.  The second component is the registry after the call. *)
Definition register (name : string) (k : Kernel) (reg : gmap string Kernel)
  : (error Cause + unit) * gmap string Kernel :=
  match reg !! name with
  | Some _ => (inl (DuplicateNameError name), reg)
  | None => (inr tt, <[name := k]> reg)
  end.

(** Modelled from the spec: [resolve] of section 4.1, absent from the
    source. *)
Definition resolve (name : string) (ty : elem_type) (reg : gmap string Kernel)
  : error Cause + Kernel :=
  match reg !! name with
  | None => inl (UnknownKernelError name)
  | Some k => if supports k ty then inr k else inl (UnsupportedTypeError name ty)
  end.

(** Modelled from the spec: "For each name, resolves via the Kernel
    Registry (propagating its errors)", section 4.2. *)
Fixpoint resolve_all (names : list string) (ty : elem_type) (reg : gmap string Kernel)
  : error Cause + list (string * Kernel) :=
  match names with
  | [] => inr []
  | name :: rest =>
      match resolve name ty reg with
      | inl e => inl e
      | inr k =>
          match resolve_all rest ty reg with
          | inl e => inl e
          | inr ks => inr ((name, k) :: ks)
          end
      end
  end.

(** Modelled from the spec: one timed invocation, "recording elapsed time
    per call using a monotonic clock", section 4.2. *)
Definition timed (k : Kernel) (x : Matrix) (w : W) : (Cause + N) * W :=
  let t0 := clock w in
  let '(r, w') := invoke k x w in
  let t1 := clock w' in
  (match r with inl c => inl c | inr _ => inr (t1 - t0)%N end, w').

(** Modelled from the spec: the measurement series of one kernel, section
    4.2 and section 7: [n] repetitions numbered from [i], stopping at the
    first failure with its repetition index and cause. *)
Fixpoint series (k : Kernel) (x : Matrix) (i n : nat) (w : W)
  : (nat * Cause + list N) * W :=
  match n with
  | 0 => (inr [], w)
  | S n' =>
      match timed k x w with
      | (inl c, w') => (inl (i, c), w')
      | (inr d, w') =>
          match series k x (S i) n' w' with
          | (inl f, w'') => (inl f, w'')
          | (inr ds, w'') => (inr (d :: ds), w'')
          end
      end
  end.

(** Modelled from the spec: the outcome for one kernel: the summary of a
    complete series, or [KernelExecutionError] for a failing one. *)
Definition measure (name : string) (k : Kernel) (x : Matrix) (n : nat) (w : W)
  : (error Cause + BenchmarkResult) * W :=
  match series k x 1 n w with
  | (inl (i, c), w') => (inl (KernelExecutionError name i c), w')
  | (inr ds, w') => (summarize ds, w')
  end.

(** Modelled from the spec: the kernels of one run measured one after the
    other ("the harness executes kernels sequentially", section 5), each
    with its own outcome (failure isolation, section 7); the source has no
    such loop. *)
Fixpoint measure_all (ks : list (string * Kernel)) (x : Matrix) (n : nat) (w : W)
  : list (string * (error Cause + BenchmarkResult)) * W :=
  match ks with
  | [] => ([], w)
  | (name, k) :: rest =>
      let '(o, w') := measure name k x n w in
      let '(os, w'') := measure_all rest x n w' in
      ((name, o) :: os, w'')
  end.

(** Modelled from the spec: [run] of section 4.2, absent from the source.
    The result lists, in the order of [kernelNames], each name with its
    Benchmark Result or the error of its series; an invalid repetition
    count or a registry error fails the call as a whole. *)
Definition run (names : list string) (x : Matrix) (repetitions : Z)
    (reg : gmap string Kernel) (w : W)
  : (error Cause + list (string * (error Cause + BenchmarkResult))) * W :=
  if (repetitions <? 1)%Z then (inl InvalidArgumentError, w)
  else
    match resolve_all names (elem_type_of x) reg with
    | inl e => (inl e, w)
    | inr ks =>
        let '(os, w') := measure_all ks x (Z.to_nat repetitions) w in
        (inr os, w')
    end.

(** The process state after [j] invocations of [k] on [x]. *)
Fixpoint after (k : Kernel) (x : Matrix) (j : nat) (w : W) : W :=
  match j with
  | 0 => w
  | S j' => after k x j' (snd (invoke k x w))
  end.

End Model.

Arguments Kernel : clear implicits.

End Harness.

(** ** Closed instances

    A small library and a small process, used where a statement is
    evaluated on concrete data. *)

Module Sample.

Import Arma.

(** Armadillo selects the routine by the first character of [method] and
    rejects any other string with a [logic_error]. *)
Definition known_method (method : string) : bool :=
  match method with
  | String c _ => Ascii.eqb c (Ascii.ascii_of_nat 115) || Ascii.eqb c (Ascii.ascii_of_nat 100)
  | EmptyString => false
  end.

(** A failed decomposition: status [false], the three outputs reset. *)
Definition reset {eT} : svd_result eT :=
  svd_returns false empty_mat empty_vec empty_mat.

(** A library that decomposes finite 1x1 matrices and reports failure on
    everything else. *)
Definition svd1_real (method : string) (x : mat) : svd_result double :=
  if negb (known_method method)
  then svd_throws (logic_error "svd(): unknown method specified")
  else
    match x with
    | MkMat 1 1 [a] =>
        if is_finite a
        then svd_returns true (MkMat 1 1 [one]) [abs a]
                         (MkMat 1 1 [if ltb a zero then opp one else one])
        else reset
    | _ => reset
    end.

Definition svd1_cx (method : string) (x : cx_mat) : svd_result cx_double :=
  if negb (known_method method)
  then svd_throws (logic_error "svd(): unknown method specified")
  else
    match x with
    | MkMat 1 1 [Cx a b] =>
        if is_finite a && is_zero b
        then svd_returns true (MkMat 1 1 [Cx one zero]) [abs a]
                         (MkMat 1 1 [Cx (if ltb a zero then opp one else one) zero])
        else reset
    | _ => reset
    end.

Definition lib1 : library := {| svd_real := svd1_real; svd_cx := svd1_cx |}.

(** One real and one complex matrix object, and one the library fails on. *)
Definition X3 : mat := MkMat 1 1 [3%float].
Definition Xnan : mat := MkMat 1 1 [nan].
Definition Z3 : cx_mat := MkMat 1 1 [Cx (opp (3%float)) zero].

Definition heap1 : gmap loc obj :=
  {[ 1%positive := OMat X3; 2%positive := OCxMat Z3; 3%positive := OMat Xnan ]}.

(** The same matrices in a store that also holds an unrelated vector. *)
Definition heap2 : gmap loc obj := <[ 7%positive := OVec [one] ]> heap1.

(** A process whose state is the clock reading.  [steady] takes 7 ns per
    call; [flaky] fails on a call that starts at or after 49 ns, that is
    on its third call when the clock starts at 35. *)
Definition steady : Harness.Kernel N mat string :=
  {| Harness.invoke := λ _ w, (inr [one], (w + 7)%N);
     Harness.supports := λ _, true |}.

Definition flaky : Harness.Kernel N mat string :=
  {| Harness.invoke := λ _ w,
       if (w <? 49)%N then (inr [one], (w + 7)%N) else (inl "no convergence", (w + 1)%N);
     Harness.supports := λ ty, match ty with Harness.RealElt => true | _ => false end |}.

Definition registry1 : gmap string (Harness.Kernel N mat string) :=
  {[ "standard" := steady; "flaky" := flaky ]}.

Definition real_only (_ : mat) : Harness.elem_type := Harness.RealElt.

(** The exported functions as kernels.  The process state is the store
    with the clock reading, the matrix is borrowed as a typed reference,
    and a call that returns takes [cost] ns. *)
Definition as_kernel (f : loc → M vec) (ty : Harness.elem_type) (cost : N)
  : Harness.Kernel (gmap loc obj * N) (Harness.elem_type * loc) exn :=
  {| Harness.invoke := λ X '(h, t),
       match f (snd X) h with
       | Some (Val s, h') => (inr s, (h', (t + cost)%N))
       | Some (Exn e, h') => (inl e, (h', (t + 1)%N))
       | None => (inl (logic_error "bad reference"), (h, t))
       end;
     Harness.supports := λ ty',
       match ty, ty' with
       | Harness.RealElt, Harness.RealElt
       | Harness.ComplexElt, Harness.ComplexElt => true
       | _, _ => false
       end |}.

(** The registry of the first timing comparison of the source,
    [microbenchmark(baseSVD(X), dcSVD(X))]. *)
Definition registry2
  : gmap string (Harness.Kernel (gmap loc obj * N) (Harness.elem_type * loc) exn) :=
  {[ "baseSVD" := as_kernel (baseSVD lib1) Harness.RealElt 40;
     "dcSVD" := as_kernel (dcSVD lib1) Harness.RealElt 10 ]}.

(** A second library: it throws where [lib1] throws and leaves the same
    [S], but reports the opposite status and exchanges [U] and [V]. *)
Definition exchange {eT} (r : svd_result eT) : svd_result eT :=
  match r with
  | svd_throws e => svd_throws e
  | svd_returns status u s v => svd_returns (negb status) v s u
  end.

Definition lib2 : library :=
  {| svd_real := λ method x, exchange (svd1_real method x);
     svd_cx := λ method z, exchange (svd1_cx method z) |}.

(** What the store holds at a borrowed matrix. *)
Definition content (w : gmap loc obj * N) (X : Harness.elem_type * loc) : option obj :=
  fst w !! snd X.

End Sample.

(** * Properties of the wrappers *)

Module ArmaFacts.

Import Arma.
Local Open Scope cpp_scope.

Lemma baseSVD_wrapper lib X : baseSVD lib X = wrapper lib (eT := double) "standard" X.
Proof. reflexivity. Qed.

Lemma dcSVD_wrapper lib X : dcSVD lib X = wrapper lib (eT := double) "dc" X.
Proof. reflexivity. Qed.

Lemma cxBaseSVD_wrapper lib X :
  cxBaseSVD lib X = wrapper lib (eT := cx_double) "standard" X.
Proof. reflexivity. Qed.

Lemma cxDcSVD_wrapper lib X : cxDcSVD lib X = wrapper lib (eT := cx_double) "dc" X.
Proof. reflexivity. Qed.

Lemma fresh_lookup (h : gmap loc obj) : h !! fresh (dom h) = None.
Proof. apply not_elem_of_dom, is_fresh. Qed.

(** A scope with one local: whatever the body leaves in the store, the
    local is gone afterwards. *)
Lemma local_run {A} (init : obj) (body : loc → M A) (h h1 : gmap loc obj) (r : res A) :
  (∀ l, h !! l = None →
        ∃ h', body l (<[l := init]> h) = Some (r, h') ∧ delete l h' = h1) →
  local init body h = Some (r, h1).
Proof.
  intros Hbody. unfold local.
  destruct (Hbody _ (fresh_lookup h)) as (h' & -> & <-). done.
Qed.

(** The three writes of [svd] land on the three locals and nowhere else. *)
Lemma writes_on_locals (h : gmap loc obj) (U V S : loc) (u0 v0 s0 u v s : obj) :
  U ≠ V → U ≠ S → V ≠ S →
  <[V := v]> (<[S := s]> (<[U := u]> (<[S := s0]> (<[V := v0]> (<[U := u0]> h)))))
  = <[S := s]> (<[V := v]> (<[U := u]> h)).
Proof.
  intros. apply map_eq. intros i. rewrite !lookup_insert.
  repeat case_decide; congruence.
Qed.

(** A call of a wrapper on a store in which [X] designates a matrix: the
    result is what the library produced, with the status dropped, and the
    store is the one before the call. *)
Lemma wrapper_run (lib : library) {eT} `{SvdElt eT} (method : string)
    (X : loc) (x : Mat eT) (h : gmap loc obj) :
  h !! X = Some (to_obj x) →
  wrapper lib method X h = Some (surfaced (lib_svd lib method x), h).
Proof.
  intros HX. unfold wrapper.
  apply local_run. intros U HU.
  assert (U ≠ X) by congruence.
  destruct (lib_svd lib method x) as [e | st u s v] eqn:Hlib.
  - eexists. split; [| by apply delete_insert_id].
    apply local_run. intros V HV.
    eexists. split; [| by apply delete_insert_id].
    apply local_run. intros S HS. eexists. split; [| by apply delete_insert_id].
    assert (V ≠ X) by (intros ->; simplify_map_eq).
    assert (S ≠ X) by (intros ->; simplify_map_eq).
    unfold bind, svd, bind, read_mat.
    rewrite !lookup_insert_ne by done. rewrite HX, of_to_obj, Hlib. done.
  - exists (<[U := to_obj u]> h). split; [| by apply delete_insert_id].
    apply local_run. intros V HV.
    apply lookup_insert_None in HV as [HV ?].
    exists (<[V := to_obj v]> (<[U := to_obj u]> h)).
    split; [| apply delete_insert_id; by simplify_map_eq].
    apply local_run. intros S HS.
    apply lookup_insert_None in HS as [HS ?].
    apply lookup_insert_None in HS as [HS ?].
    assert (V ≠ X) by congruence.
    assert (S ≠ X) by congruence.
    exists (<[S := OVec s]> (<[V := to_obj v]> (<[U := to_obj u]> h))).
    split; [| apply delete_insert_id; by simplify_map_eq].
    unfold bind, svd, bind, read_mat, write_mat, write_vec, read_vec, ret.
    simplify_map_eq. rewrite of_to_obj, Hlib.
    repeat (simplify_map_eq; rewrite of_to_obj). simplify_map_eq.
    by rewrite writes_on_locals.
Qed.

Lemma baseSVD_run lib X x h :
  h !! X = Some (OMat x) →
  baseSVD lib X h = Some (surfaced (svd_real lib "standard" x), h).
Proof. exact (wrapper_run lib (eT := double) "standard" X x h). Qed.

Lemma dcSVD_run lib X x h :
  h !! X = Some (OMat x) →
  dcSVD lib X h = Some (surfaced (svd_real lib "dc" x), h).
Proof. exact (wrapper_run lib (eT := double) "dc" X x h). Qed.

Lemma cxBaseSVD_run lib X x h :
  h !! X = Some (OCxMat x) →
  cxBaseSVD lib X h = Some (surfaced (svd_cx lib "standard" x), h).
Proof. exact (wrapper_run lib (eT := cx_double) "standard" X x h). Qed.

Lemma cxDcSVD_run lib X x h :
  h !! X = Some (OCxMat x) →
  cxDcSVD lib X h = Some (surfaced (svd_cx lib "dc" x), h).
Proof. exact (wrapper_run lib (eT := cx_double) "dc" X x h). Qed.

Lemma frame_mono {A} (L L' : gset loc) (c : M A) :
  L ⊆ L' → frame L c → frame L' c.
Proof. intros HL Hc h r h' Hrun l Hl. apply (Hc h r h' Hrun). set_solver. Qed.

Lemma frame_ret {A} (a : A) : frame ∅ (ret a).
Proof. by intros h r h' [= _ <-]. Qed.

Lemma frame_throw {A} (e : exn) : frame ∅ (throw (A := A) e).
Proof. by intros h r h' [= _ <-]. Qed.

Lemma frame_bind {A B} (L : gset loc) (c : M A) (k : A → M B) :
  frame L c → (∀ a, frame L (k a)) → frame L (bind c k).
Proof.
  intros Hc Hk h r h'. unfold bind.
  destruct (c h) as [[[a|e] h1]|] eqn:Hrun; [| |done].
  - intros Hrun2 l Hl.
    rewrite (Hk a h1 r h' Hrun2 l Hl). by apply (Hc h (Val a) h1).
  - intros [= <- <-] l Hl. by apply (Hc h (Exn e) h1).
Qed.

Lemma frame_local {A} (L : gset loc) (init : obj) (body : loc → M A) :
  (∀ l, frame ({[l]} ∪ L) (body l)) → frame L (local init body).
Proof.
  intros Hbody h r h'. unfold local.
  destruct (body _ _) as [[r1 h1]|] eqn:Hrun; [|done].
  intros [= <- <-] l Hl.
  destruct (decide (l = fresh (dom h))) as [->|Hne].
  - by rewrite lookup_delete_eq, fresh_lookup.
  - rewrite lookup_delete_ne by done.
    rewrite (Hbody _ _ _ _ Hrun l)
      by (apply not_elem_of_union; split; [by apply not_elem_of_singleton | done]).
    by rewrite lookup_insert_ne.
Qed.

Lemma frame_read_vec (l : loc) : frame ∅ (read_vec l).
Proof.
  intros h r h'. unfold read_vec.
  destruct (h !! l) as [[]|]; try done. by intros [= _ <-].
Qed.

Lemma frame_read_mat {eT} `{Elt eT} (l : loc) : frame ∅ (read_mat (eT := eT) l).
Proof.
  intros h r h'. unfold read_mat.
  destruct (h !! l) as [o|]; [|done]. destruct (of_obj o); [|done].
  by intros [= _ <-].
Qed.

Lemma frame_write_mat {eT} {E : Elt eT} (l : loc) (m : Mat eT) :
  frame {[l]} (write_mat l m).
Proof.
  intros h r h'. unfold write_mat.
  destruct (h !! l) as [o|]; [|done].
  destruct (of_obj (eT := eT) o); [|done].
  intros [= _ <-] l' Hl'. apply lookup_insert_ne. set_solver.
Qed.

Lemma frame_write_vec (l : loc) (v : vec) : frame {[l]} (write_vec l v).
Proof.
  intros h r h'. unfold write_vec.
  destruct (h !! l) as [[]|]; try done.
  intros [= _ <-] l' Hl'. apply lookup_insert_ne. set_solver.
Qed.

(** [svd] writes through its three output references only. *)
Lemma frame_svd (lib : library) {eT} {E : SvdElt eT} (U S V X : loc) (method : string) :
  frame {[U; S; V]} (svd lib (eT := eT) U S V X method).
Proof.
  unfold svd. apply frame_bind.
  - eapply frame_mono; [|apply frame_read_mat]. set_solver.
  - intros x. destruct (lib_svd lib method x) as [e|st u s v].
    + eapply frame_mono; [|apply frame_throw]. set_solver.
    + apply frame_bind; [eapply frame_mono; [|apply frame_write_mat]; set_solver|].
      intros _.
      apply frame_bind; [eapply frame_mono; [|apply frame_write_vec]; set_solver|].
      intros _.
      apply frame_bind; [eapply frame_mono; [|apply frame_write_mat]; set_solver|].
      intros _. eapply frame_mono; [|apply frame_ret]. set_solver.
Qed.

(** A wrapper that returns leaves the whole store as it was, whatever [X]
    designates. *)
Lemma wrapper_frame (lib : library) {eT} `{SvdElt eT} (method : string) (X : loc)
    (h h' : gmap loc obj) (r : res vec) :
  wrapper lib (eT := eT) method X h = Some (r, h') → h' = h.
Proof.
  intros Hrun. apply map_eq. intros l.
  assert (frame ∅ (wrapper lib (eT := eT) method X)) as Hf; [|by eapply Hf].
  unfold wrapper.
  apply frame_local. intros U. apply frame_local. intros V.
  apply frame_local. intros S. apply frame_bind.
  - eapply frame_mono; [|apply frame_svd]. set_unfold; tauto.
  - intros _. eapply frame_mono; [|apply frame_read_vec]. set_unfold; tauto.
Qed.

Lemma baseSVD_frame lib X h r h' : baseSVD lib X h = Some (r, h') → h' = h.
Proof. exact (wrapper_frame lib (eT := double) "standard" X h h' r). Qed.

Lemma dcSVD_frame lib X h r h' : dcSVD lib X h = Some (r, h') → h' = h.
Proof. exact (wrapper_frame lib (eT := double) "dc" X h h' r). Qed.

Lemma cxBaseSVD_frame lib X h r h' : cxBaseSVD lib X h = Some (r, h') → h' = h.
Proof. exact (wrapper_frame lib (eT := cx_double) "standard" X h h' r). Qed.

Lemma cxDcSVD_frame lib X h r h' : cxDcSVD lib X h = Some (r, h') → h' = h.
Proof. exact (wrapper_frame lib (eT := cx_double) "dc" X h h' r). Qed.

(** Evaluation on the sample store. *)
Example baseSVD_heap1 :
  baseSVD Sample.lib1 1%positive Sample.heap1 = Some (Val [3%float], Sample.heap1).
Proof. rewrite (baseSVD_run _ _ Sample.X3) by done. reflexivity. Qed.

Example cxDcSVD_heap1 :
  cxDcSVD Sample.lib1 2%positive Sample.heap1 = Some (Val [3%float], Sample.heap1).
Proof. rewrite (cxDcSVD_run _ _ Sample.Z3) by done. reflexivity. Qed.

(** ** Purity *)

(** C5: each wrapper is pure and deterministic.  With the library fixed,
    two invocations of a wrapper on stores in which [X] designates the
    same matrix (the stores may differ anywhere else) yield the same
    outcome, and each leaves its store exactly as it found it. *)
Theorem wrappers_pure_deterministic (lib : library) (X : loc) (h1 h2 : gmap loc obj) :
  (∀ x : mat, h1 !! X = Some (OMat x) → h2 !! X = Some (OMat x) →
     pure_on (baseSVD lib) X h1 h2 ∧ pure_on (dcSVD lib) X h1 h2) ∧
  (∀ z : cx_mat, h1 !! X = Some (OCxMat z) → h2 !! X = Some (OCxMat z) →
     pure_on (cxBaseSVD lib) X h1 h2 ∧ pure_on (cxDcSVD lib) X h1 h2).
Proof.
  split.
  - intros x H1 H2. split; eexists.
    + by rewrite (baseSVD_run lib X x h1 H1), (baseSVD_run lib X x h2 H2).
    + by rewrite (dcSVD_run lib X x h1 H1), (dcSVD_run lib X x h2 H2).
  - intros z H1 H2. split; eexists.
    + by rewrite (cxBaseSVD_run lib X z h1 H1), (cxBaseSVD_run lib X z h2 H2).
    + by rewrite (cxDcSVD_run lib X z h1 H1), (cxDcSVD_run lib X z h2 H2).
Qed.

(** The sample library on two stores that agree on the matrices. *)
Lemma wrappers_pure_deterministic_witness :
  (pure_on (baseSVD Sample.lib1) 1%positive Sample.heap1 Sample.heap2 ∧
   pure_on (dcSVD Sample.lib1) 1%positive Sample.heap1 Sample.heap2) ∧
  (pure_on (cxBaseSVD Sample.lib1) 2%positive Sample.heap1 Sample.heap2 ∧
   pure_on (cxDcSVD Sample.lib1) 2%positive Sample.heap1 Sample.heap2).
Proof.
  split.
  - apply (proj1 (wrappers_pure_deterministic Sample.lib1 1%positive
                    Sample.heap1 Sample.heap2) Sample.X3); reflexivity.
  - apply (proj2 (wrappers_pure_deterministic Sample.lib1 2%positive
                    Sample.heap1 Sample.heap2) Sample.Z3); reflexivity.
Defined.

(** ** Result type *)

(** C10: on every complex matrix the two complex wrappers return a vector
    of real numbers ([list double], never a vector of [cx_double]), which
    is also the result type of the two real wrappers. *)
Theorem wrappers_return_real_vec (lib : library) (X : loc) (h : gmap loc obj) :
  (∀ z : cx_mat, h !! X = Some (OCxMat z) →
     returns_real_vec (cxBaseSVD lib X h) ∧ returns_real_vec (cxDcSVD lib X h)) ∧
  (∀ x : mat, h !! X = Some (OMat x) →
     returns_real_vec (baseSVD lib X h) ∧ returns_real_vec (dcSVD lib X h)).
Proof.
  assert (∀ {eT} (r : svd_result eT), returns_real_vec (Some (surfaced r, h))) as Hr.
  { intros eT [e|st u s v]; exists h; simpl; eauto. }
  split.
  - intros z Hz. rewrite (cxBaseSVD_run lib X z h Hz), (cxDcSVD_run lib X z h Hz).
    split; apply Hr.
  - intros x Hx. rewrite (baseSVD_run lib X x h Hx), (dcSVD_run lib X x h Hx).
    split; apply Hr.
Qed.

(** The four wrappers on the sample store. *)
Lemma wrappers_return_real_vec_witness :
  (returns_real_vec (cxBaseSVD Sample.lib1 2%positive Sample.heap1) ∧
   returns_real_vec (cxDcSVD Sample.lib1 2%positive Sample.heap1)) ∧
  (returns_real_vec (baseSVD Sample.lib1 1%positive Sample.heap1) ∧
   returns_real_vec (dcSVD Sample.lib1 1%positive Sample.heap1)).
Proof.
  split.
  - apply (proj1 (wrappers_return_real_vec Sample.lib1 2%positive Sample.heap1)
             Sample.Z3); reflexivity.
  - apply (proj2 (wrappers_return_real_vec Sample.lib1 1%positive Sample.heap1)
             Sample.X3); reflexivity.
Defined.

End ArmaFacts.

(** * Properties of the harness *)

Module HarnessFacts.

Import Arma Harness.

Section Model.

Context {W Matrix Cause : Type}.
Context (clock : W → N) (elem_type_of : Matrix → elem_type).

Abbreviation Kernel := (Harness.Kernel W Matrix Cause).

Implicit Types (k : Kernel) (x : Matrix) (w : W) (reg : gmap string Kernel).

Lemma timed_world k x w : snd (timed clock k x w) = snd (invoke k x w).
Proof. unfold timed. by destruct (invoke k x w). Qed.

Lemma timed_failure k x w c :
  fst (timed clock k x w) = inl c ↔ fst (invoke k x w) = inl c.
Proof. unfold timed. destruct (invoke k x w) as [[c'|s] w']; simpl; split; congruence. Qed.

Lemma timed_success k x w d :
  fst (timed clock k x w) = inr d →
  ∃ s, fst (invoke k x w) = inr s ∧ d = (clock (snd (invoke k x w)) - clock w)%N.
Proof.
  unfold timed. destruct (invoke k x w) as [[c'|s] w']; simpl; [done|].
  intros [= <-]. eauto.
Qed.

Lemma after_succ k x j w :
  after k x (S j) w = snd (invoke k x (after k x j w)).
Proof. revert w. induction j as [|j IH]; intros w; [done|]. simpl in *. by rewrite IH. Qed.

(** A complete series has one sample per repetition. *)
Lemma series_complete k x i n w ds w' :
  series clock k x i n w = (inr ds, w') →
  length ds = n ∧ w' = after k x n w.
Proof.
  revert i w ds. induction n as [|n IH]; intros i w ds; simpl.
  - by intros [= <- <-].
  - pose proof (timed_world k x w) as Hw.
    destruct (timed clock k x w) as [[c|d] w1]; [done|]. simpl in Hw. subst w1.
    destruct (series clock k x (S i) n _) as [[f|ds'] w2] eqn:Hs; [done|].
    intros [= <- <-]. apply IH in Hs as [Hl ->]. simpl. by rewrite Hl.
Qed.

(** A kernel that never fails completes every series. *)
Lemma series_total k x i n w :
  (∀ w0, ∃ s, fst (invoke k x w0) = inr s) →
  ∃ ds, series clock k x i n w = (inr ds, after k x n w) ∧ length ds = n.
Proof.
  intros Hok. revert i w. induction n as [|n IH]; intros i w; simpl.
  - by exists [].
  - destruct (Hok w) as [s Hs].
    unfold timed. destruct (invoke k x w) as [r w1]. simpl in *. subst r.
    destruct (IH (S i) w1) as (ds & -> & Hlen).
    eexists. split; [done|]. simpl. by rewrite Hlen.
Qed.

(** A failing series: the failure is that of repetition [i], every earlier
    repetition succeeded, and the kernel was not invoked again. *)
Lemma series_failure k x i0 n w i c w' :
  series clock k x i0 n w = (inl (i, c), w') →
  i0 ≤ i < i0 + n ∧
  (∀ j, j < i - i0 → ∃ s, fst (invoke k x (after k x j w)) = inr s) ∧
  fst (invoke k x (after k x (i - i0) w)) = inl c ∧
  w' = after k x (S (i - i0)) w.
Proof.
  revert i0 w. induction n as [|n IH]; intros i0 w; simpl; [done|].
  pose proof (timed_world k x w) as Hw.
  pose proof (timed_failure k x w) as Hf.
  pose proof (timed_success k x w) as Hd.
  destruct (timed clock k x w) as [[c1|d] w1]; simpl in *; subst w1.
  - intros [= <- <-]. replace (i0 - i0) with 0 by lia. simpl.
    split; [lia|]. split; [intros; lia|]. split; [by apply Hf | done].
  - destruct (series clock k x (S i0) n _) as [[f|ds'] w2] eqn:Hs; [|done].
    intros [= -> ->]. apply IH in Hs as (Hi & Hbefore & Hat & ->).
    destruct (Hd d eq_refl) as (s & Hs & _).
    replace (i - i0) with (S (i - S i0)) by lia.
    split; [lia|]. split; [|done].
    intros [|j] Hj; simpl; [eauto|]. apply Hbefore. lia.
Qed.

Lemma measure_all_app (ks1 ks2 : list (string * Kernel)) x n w :
  measure_all clock (ks1 ++ ks2) x n w =
  let '(os1, w1) := measure_all clock ks1 x n w in
  let '(os2, w2) := measure_all clock ks2 x n w1 in
  (os1 ++ os2, w2).
Proof.
  revert w. induction ks1 as [|[name k] ks1 IH]; intros w; simpl.
  - by destruct (measure_all clock ks2 x n w).
  - destruct (measure clock name k x n w) as [o w1]. rewrite IH.
    destruct (measure_all clock ks1 x n w1) as [os1 w2].
    by destruct (measure_all clock ks2 x n w2).
Qed.

Lemma resolve_all_names names ty reg (ks : list (string * Kernel)) :
  resolve_all names ty reg = inr ks → ks.*1 = names.
Proof.
  revert ks. induction names as [|name names IH]; intros ks; simpl.
  - by intros [= <-].
  - destruct (resolve name ty reg) as [e|k]; [done|].
    destruct (resolve_all names ty reg) as [e|ks']; [done|].
    intros [= <-]. simpl. f_equal. by apply IH.
Qed.

Lemma resolve_all_lookup names ty reg (ks : list (string * Kernel)) name k :
  resolve_all names ty reg = inr ks → (name, k) ∈ ks →
  reg !! name = Some k ∧ supports k ty = true.
Proof.
  revert ks. induction names as [|n0 names IH]; intros ks; simpl.
  - intros [= <-] Hin. by apply not_elem_of_nil in Hin.
  - unfold resolve. destruct (reg !! n0) as [k0|] eqn:Hreg; [|done].
    destruct (supports k0 ty) eqn:Hsup; [|done].
    destruct (resolve_all names ty reg) as [e|ks']; [done|].
    intros [= <-] [[= -> ->]|Hin]%elem_of_cons; [done|]. by apply (IH ks').
Qed.

(** Whatever the kernels preserve, the timing loops preserve. *)
Lemma series_preserves (P : W → Prop) k x i n w :
  (∀ w0, P w0 → P (snd (invoke k x w0))) →
  P w → P (snd (series clock k x i n w)).
Proof.
  intros Hk. revert i w. induction n as [|n IH]; intros i w Hw; simpl; [done|].
  pose proof (timed_world k x w) as Hw1.
  destruct (timed clock k x w) as [[c|d] w1]; simpl in *; subst w1.
  - by apply Hk.
  - specialize (IH (S i) _ (Hk _ Hw)).
    by destruct (series clock k x (S i) n _) as [[f|ds] w2].
Qed.

Lemma measure_world name k x n w :
  snd (measure clock name k x n w) = snd (series clock k x 1 n w).
Proof.
  unfold measure. by destruct (series clock k x 1 n w) as [[[i c]|ds] w'].
Qed.

Lemma measure_all_preserves (P : W → Prop) (ks : list (string * Kernel)) x n w :
  (∀ name k w0, (name, k) ∈ ks → P w0 → P (snd (invoke k x w0))) →
  P w → P (snd (measure_all clock ks x n w)).
Proof.
  revert w. induction ks as [|[name k] ks IH]; intros w Hks Hw; simpl; [done|].
  pose proof (measure_world name k x n w) as Hm.
  destruct (measure clock name k x n w) as [o w1]. simpl in Hm. subst w1.
  assert (P (snd (series clock k x 1 n w))) as Hw1.
  { apply series_preserves; [|done]. intros w0. apply (Hks name k). by left. }
  specialize (IH _ (λ name' k' w0 Hin, Hks name' k' w0 (list_elem_of_further _ _ _ Hin)) Hw1).
  by destruct (measure_all clock ks x n _) as [os w2].
Qed.

Lemma run_preserves (P : W → Prop) names x R reg w :
  (∀ name k w0, reg !! name = Some k → P w0 → P (snd (invoke k x w0))) →
  P w → P (snd (run clock elem_type_of names x R reg w)).
Proof.
  intros Hreg Hw. unfold run. destruct (R <? 1)%Z; [done|].
  destruct (resolve_all names (elem_type_of x) reg) as [e|ks] eqn:Hres; [done|].
  pose proof (measure_all_preserves P ks x (Z.to_nat R) w) as Hall.
  destruct (measure_all clock ks x (Z.to_nat R) w) as [os w']. simpl in *.
  apply Hall; [|done]. intros name k w0 Hin.
  apply (Hreg name). by eapply resolve_all_lookup.
Qed.

End Model.

(** ** Statistics *)

Lemma N2Q_le (a b : N) : (a ≤ b)%N → (N2Q a <= N2Q b)%Q.
Proof. intros. unfold N2Q. rewrite <- Zle_Qle. lia. Qed.

Lemma foldr_min_le (x : N) (l : list N) (y : N) :
  y ∈ x :: l → (foldr N.min x l ≤ y)%N.
Proof.
  induction l as [|z l IH]; simpl; intros Hin.
  - apply list_elem_of_singleton in Hin as ->. lia.
  - apply elem_of_cons in Hin as [->|Hin].
    + assert (foldr N.min x l ≤ x)%N by (apply IH; left). lia.
    + apply elem_of_cons in Hin as [->|Hin]; [lia|].
      assert (foldr N.min x l ≤ y)%N by (apply IH; by right). lia.
Qed.

Lemma foldr_max_ge (x : N) (l : list N) (y : N) :
  y ∈ x :: l → (y ≤ foldr N.max x l)%N.
Proof.
  induction l as [|z l IH]; simpl; intros Hin.
  - apply list_elem_of_singleton in Hin as ->. lia.
  - apply elem_of_cons in Hin as [->|Hin].
    + assert (x ≤ foldr N.max x l)%N by (apply IH; left). lia.
    + apply elem_of_cons in Hin as [->|Hin]; [lia|].
      assert (y ≤ foldr N.max x l)%N by (apply IH; by right). lia.
Qed.

Lemma sum_samples_bounds (lo hi : N) (l : list N) :
  (∀ y, y ∈ l → (lo ≤ y ≤ hi)%N) →
  (lo * N.of_nat (length l) ≤ sum_samples l ≤ hi * N.of_nat (length l))%N.
Proof.
  induction l as [|y l IH]; intros Hb; simpl; [lia|].
  assert (lo ≤ y ≤ hi)%N by (apply Hb; left).
  assert (lo * N.of_nat (length l) ≤ sum_samples l ≤ hi * N.of_nat (length l))%N
    by (apply IH; intros; apply Hb; by right).
  lia.
Qed.

(** The midpoint of two values of an interval lies in the interval. *)
Lemma midpoint_bounds (lo hi a b : N) :
  (lo ≤ a ≤ hi)%N → (lo ≤ b ≤ hi)%N →
  (N2Q lo <= (N2Q a + N2Q b) / 2 ∧ (N2Q a + N2Q b) / 2 <= N2Q hi)%Q.
Proof.
  intros Ha Hb. unfold N2Q.
  split.
  - apply Qle_shift_div_l; [done|]. rewrite <- inject_Z_plus.
    change 2%Q with (inject_Z 2). rewrite <- inject_Z_mult, <- Zle_Qle. lia.
  - apply Qle_shift_div_r; [done|]. rewrite <- inject_Z_plus.
    change 2%Q with (inject_Z 2). rewrite <- inject_Z_mult, <- Zle_Qle. lia.
Qed.

Lemma mean_bounds (lo hi : N) (l : list N) :
  l ≠ [] →
  (∀ y, y ∈ l → (lo ≤ y ≤ hi)%N) →
  (N2Q lo <= N2Q (sum_samples l) / N2Q (N.of_nat (length l)) ∧
   N2Q (sum_samples l) / N2Q (N.of_nat (length l)) <= N2Q hi)%Q.
Proof.
  intros Hne Hb. pose proof (sum_samples_bounds lo hi l Hb) as [Hlo Hhi].
  assert (0 < length l) by (destruct l; simpl; [done | lia]).
  assert (0 < N2Q (N.of_nat (length l)))%Q.
  { unfold N2Q. change 0%Q with (inject_Z 0). rewrite <- Zlt_Qlt. lia. }
  unfold N2Q in *. split.
  - apply Qle_shift_div_l; [done|]. rewrite <- inject_Z_mult, <- Zle_Qle. lia.
  - apply Qle_shift_div_r; [done|]. rewrite <- inject_Z_mult, <- Zle_Qle. lia.
Qed.

Lemma nth_bounds (lo hi : N) (l : list N) (i : nat) :
  (∀ y, y ∈ l → (lo ≤ y ≤ hi)%N) → i < length l → (lo ≤ nth i l 0 ≤ hi)%N.
Proof.
  intros Hb Hi. apply Hb.
  destruct (nth_lookup_or_length l i 0%N) as [Hl|]; [|lia].
  by eapply list_elem_of_lookup_2.
Qed.

Lemma median_of_bounds (lo hi : N) (l : list N) :
  l ≠ [] →
  (∀ y, y ∈ l → (lo ≤ y ≤ hi)%N) →
  (N2Q lo <= median_of l ∧ median_of l <= N2Q hi)%Q.
Proof.
  intros Hne Hb. unfold median_of.
  assert (0 < length l) as Hlen by (destruct l; simpl; [done | lia]).
  assert (length l / 2 < length l) by (apply Nat.div_lt; lia).
  destruct (Nat.even (length l)) eqn:Heven.
  - apply midpoint_bounds; apply nth_bounds; try done; lia.
  - pose proof (nth_bounds lo hi l (length l / 2) Hb ltac:(done)) as [? ?].
    split; by apply N2Q_le.
Qed.

Lemma summarize_nonempty {Cause} (samples : list N) :
  samples ≠ [] →
  ∃ br, summarize (Cause := Cause) samples = inr br ∧
        count br = length samples ∧
        (N2Q (min br) <= median br ∧ median br <= N2Q (max br))%Q ∧
        (N2Q (min br) <= mean br ∧ mean br <= N2Q (max br))%Q.
Proof.
  destruct samples as [|x l]; [done|]. intros _. eexists. split; [done|].
  set (lo := foldr N.min x l). set (hi := foldr N.max x l).
  assert (∀ y, y ∈ x :: l → (lo ≤ y ≤ hi)%N) as Hb.
  { intros y Hy. split; [by apply foldr_min_le | by apply foldr_max_ge]. }
  cbn [count min max mean median]. split; [done|]. split.
  - apply median_of_bounds.
    + intros Hnil. pose proof (merge_sort_Permutation N.le (x :: l)) as Hp.
      rewrite Hnil in Hp. by apply Permutation_nil_cons in Hp.
    + intros y Hy. apply Hb. by rewrite <- (merge_sort_Permutation N.le).
  - by apply mean_bounds.
Qed.

(** ** The registry, the timing loop and the reporter *)

Section Properties.

Context {W Matrix Cause : Type}.
Context (clock : W → N) (elem_type_of : Matrix → elem_type).

Abbreviation Kernel := (Harness.Kernel W Matrix Cause).

Implicit Types (k : Kernel) (x : Matrix) (w : W) (reg : gmap string Kernel).

Lemma measure_count name k x n w br :
  fst (measure clock name k x n w) = inr br → count br = n.
Proof.
  unfold measure.
  destruct (series clock k x 1 n w) as [[[i c]|ds] w'] eqn:Hs; [done|].
  apply series_complete in Hs as [Hlen _]. simpl.
  destruct ds as [|d ds]; [done|]. by intros [= <-].
Qed.

Lemma measure_all_count (ks : list (string * Kernel)) x n w name br :
  (name, inr br) ∈ fst (measure_all clock ks x n w) → count br = n.
Proof.
  revert w. induction ks as [|[name0 k] ks IH]; intros w; simpl.
  - intros Hin. by apply not_elem_of_nil in Hin.
  - pose proof (measure_count name0 k x n w) as Hm.
    destruct (measure clock name0 k x n w) as [o w1].
    specialize (IH w1). destruct (measure_all clock ks x n w1) as [os w2].
    simpl in *. intros [[= -> <-]|Hin]%elem_of_cons; [by apply Hm | by apply IH].
Qed.

Lemma resolve_all_error names ty reg name (e0 : error Cause) :
  name ∈ names → resolve name ty reg = inl e0 →
  ∃ e name', resolve_all names ty reg = inl e ∧
             name' ∈ names ∧ resolve name' ty reg = inl e.
Proof.
  induction names as [|n0 names IH]; intros Hin Hres.
  - by apply not_elem_of_nil in Hin.
  - simpl. destruct (resolve n0 ty reg) as [e|k0] eqn:H0.
    + exists e, n0. split; [done|]. split; [left | done].
    + apply elem_of_cons in Hin as [->|Hin]; [congruence|].
      destruct (IH Hin Hres) as (e & name' & -> & Hin' & Hres').
      exists e, name'. split; [done|]. split; [by right | done].
Qed.

(** The series finds the first failing invocation: it stops there, with
    the index and the cause of that invocation. *)
Lemma series_detects k x i0 n w m c :
  m < n →
  (∀ j, j < m → ∃ s, fst (invoke k x (after k x j w)) = inr s) →
  fst (invoke k x (after k x m w)) = inl c →
  series clock k x i0 n w = (inl (i0 + m, c), after k x (S m) w).
Proof.
  revert i0 w m. induction n as [|n IH]; intros i0 w m Hm Hbefore Hat; [lia|].
  simpl. unfold timed. destruct m as [|m].
  - simpl in *. destruct (invoke k x w) as [r w1]. simpl in *. subst r.
    by rewrite Nat.add_0_r.
  - destruct (Hbefore 0 ltac:(lia)) as [s Hs]. simpl in Hs, Hat |- *.
    destruct (invoke k x w) as [r w1] eqn:Hinv. simpl in Hs, Hat |- *. subst r.
    rewrite (IH (S i0) w1 m ltac:(lia)); [by rewrite Nat.add_succ_r | | done].
    intros j Hj. specialize (Hbefore (S j) ltac:(lia)).
    simpl in Hbefore. by rewrite Hinv in Hbefore.
Qed.

(** Among the invocations up to a failing one there is a first failing
    one. *)
Lemma first_failure k x w m c :
  fst (invoke k x (after k x m w)) = inl c →
  ∃ m0 c0, m0 ≤ m ∧
           (∀ j, j < m0 → ∃ s, fst (invoke k x (after k x j w)) = inr s) ∧
           fst (invoke k x (after k x m0 w)) = inl c0.
Proof.
  intros Hat.
  assert (∀ b, (∀ j, j < b → ∃ s, fst (invoke k x (after k x j w)) = inr s) ∨
               ∃ m0 c0, m0 < b ∧
                 (∀ j, j < m0 → ∃ s, fst (invoke k x (after k x j w)) = inr s) ∧
                 fst (invoke k x (after k x m0 w)) = inl c0) as Hscan.
  { induction b as [|b [Hall|(m0 & c0 & Hlt & Hbefore & Hfail)]].
    - left. intros j Hj. lia.
    - destruct (fst (invoke k x (after k x b w))) as [c0|s] eqn:Hb.
      + right. exists b, c0. split; [lia | done].
      + left. intros j Hj. destruct (decide (j = b)) as [->|]; [eauto|].
        apply Hall. lia.
    - right. exists m0, c0. split; [lia | done]. }
  destruct (Hscan (S m)) as [Hall|(m0 & c0 & Hlt & Hbefore & Hfail)].
  - destruct (Hall m ltac:(lia)) as [s Hs]. congruence.
  - exists m0, c0. split; [lia | done].
Qed.

(** A run in which an invocation of one of the kernels fails: the outcome
    listed for that kernel is the error of its first failing repetition,
    and the kernels listed before and after it are measured. *)
Lemma run_reports_failure (names : list string) (pre post : list (string * Kernel))
    (name : string) k x (R : Z) reg w (m : nat) (c : Cause) :
  (1 ≤ R)%Z →
  resolve_all names (elem_type_of x) reg = inr (pre ++ (name, k) :: post) →
  m < Z.to_nat R →
  (∀ j, j < m →
     ∃ s, fst (invoke k x (after k x j (snd (measure_all clock pre x (Z.to_nat R) w))))
          = inr s) →
  fst (invoke k x (after k x m (snd (measure_all clock pre x (Z.to_nat R) w)))) = inl c →
  run clock elem_type_of names x R reg w
  = (inr (fst (measure_all clock pre x (Z.to_nat R) w)
          ++ (name, inl (KernelExecutionError name (S m) c))
          :: fst (measure_all clock post x (Z.to_nat R)
                    (after k x (S m) (snd (measure_all clock pre x (Z.to_nat R) w))))),
     snd (measure_all clock post x (Z.to_nat R)
            (after k x (S m) (snd (measure_all clock pre x (Z.to_nat R) w))))).
Proof.
  intros HR Hres Hm Hbefore Hat.
  pose proof (series_detects k x 1 _ _ m c Hm Hbefore Hat) as Hs.
  unfold run. destruct (Z.ltb_spec R 1) as [?|_]; [lia|].
  rewrite Hres, measure_all_app.
  destruct (measure_all clock pre x (Z.to_nat R) w) as [os1 w1]. simpl in *.
  unfold measure. rewrite Hs.
  by destruct (measure_all clock post x (Z.to_nat R) _) as [os2 w3].
Qed.

(** C6: a run over one never-failing kernel takes exactly [R] timing
    samples for it, for every matrix and every [R ≥ 1]; a run with
    [R < 1] fails with [InvalidArgumentError]. *)
Theorem run_sample_count (name : string) k x (R : Z) reg w :
  ((R < 1)%Z →
     ∀ names, run clock elem_type_of names x R reg w = (inl InvalidArgumentError, w)) ∧
  ((1 ≤ R)%Z →
     reg !! name = Some k →
     supports k (elem_type_of x) = true →
     (∀ w0, ∃ s, fst (invoke k x w0) = inr s) →
     ∃ ds br,
       series clock k x 1 (Z.to_nat R) w = (inr ds, after k x (Z.to_nat R) w) ∧
       Z.of_nat (length ds) = R ∧
       summarize (Cause := Cause) ds = inr br ∧
       Z.of_nat (count br) = R ∧
       run clock elem_type_of [name] x R reg w
       = (inr [(name, inr br)], after k x (Z.to_nat R) w)).
Proof.
  split.
  - intros HR names. unfold run.
    by destruct (Z.ltb_spec R 1) as [_|?]; [|lia].
  - intros HR Hreg Hsup Hok.
    destruct (series_total clock k x 1 (Z.to_nat R) w Hok) as (ds & Hs & Hlen).
    assert (ds ≠ []) as Hne by (intros ->; simpl in Hlen; lia).
    destruct (summarize_nonempty (Cause := Cause) ds Hne) as (br & Hbr & Hcount & _).
    exists ds, br. repeat split; [done | lia | done | lia |].
    unfold run. destruct (Z.ltb_spec R 1) as [?|_]; [lia|].
    simpl. unfold resolve. rewrite Hreg, Hsup. simpl. unfold measure.
    by rewrite Hs, Hbr.
Qed.

(** C7: when an invocation of a kernel fails during a run (repetition
    [m + 1] fails with cause [c], the repetitions before it succeeded),
    the series of that kernel stops there: it ends in the state right
    after the failing invocation and yields index and cause instead of
    samples; the outcome that the run lists for the kernel is
    [KernelExecutionError] with its name, the repetition index and the
    cause, not a Benchmark Result; and the kernels before and after it in
    the same run are measured as they are without the failure. *)
Theorem failure_isolation (names : list string) (pre post : list (string * Kernel))
    (name : string) k x (R : Z) reg w (m : nat) (c : Cause) :
  (1 ≤ R)%Z →
  resolve_all names (elem_type_of x) reg = inr (pre ++ (name, k) :: post) →
  let n := Z.to_nat R in
  let w1 := snd (measure_all clock pre x n w) in
  m < n →
  (∀ j, j < m → ∃ s, fst (invoke k x (after k x j w1)) = inr s) →
  fst (invoke k x (after k x m w1)) = inl c →
  series clock k x 1 n w1 = (inl (S m, c), after k x (S m) w1) ∧
  run clock elem_type_of names x R reg w
  = (inr (fst (measure_all clock pre x n w)
          ++ (name, inl (KernelExecutionError name (S m) c))
          :: fst (measure_all clock post x n (after k x (S m) w1))),
     snd (measure_all clock post x n (after k x (S m) w1))).
Proof.
  intros HR Hres n w1 Hm Hbefore Hat. split.
  - exact (series_detects k x 1 n w1 m c Hm Hbefore Hat).
  - exact (run_reports_failure names pre post name k x R reg w m c
             HR Hres Hm Hbefore Hat).
Qed.

(** C8: registering under a name that is already registered fails with
    [DuplicateNameError] and leaves the registry unchanged, so [resolve]
    still returns the kernel registered first. *)
Theorem register_duplicate (name : string) (k1 k2 : Kernel) reg :
  (∀ k0, reg !! name = Some k0 →
     register name k2 reg = (inl (DuplicateNameError name), reg) ∧
     ∀ ty, resolve (Cause := Cause) name ty (snd (register name k2 reg))
           = resolve name ty reg) ∧
  (∀ reg1, register name k1 reg = (inr tt, reg1) →
     register name k2 reg1 = (inl (DuplicateNameError name), reg1) ∧
     ∀ ty, supports k1 ty = true →
           resolve (Cause := Cause) name ty (snd (register name k2 reg1)) = inr k1).
Proof.
  split.
  - intros k0 Hk0. unfold register. rewrite Hk0. done.
  - intros reg1. unfold register at 1.
    destruct (reg !! name) eqn:Hreg; [done|]. intros [= <-].
    unfold register, resolve. rewrite !lookup_insert_eq. simpl.
    split; [done|]. intros ty Hsup. by rewrite lookup_insert_eq, Hsup.
Qed.

(** C9: for a non-empty sample sequence [summarize] returns a Benchmark
    Result with min ≤ median ≤ max and min ≤ mean ≤ max whose count is the
    number of samples; on the empty sequence it fails with
    [EmptySampleError]; every Benchmark Result that [run] reports has the
    requested repetition count as its count. *)
Theorem summarize_invariants :
  (∀ samples : list N, samples ≠ [] →
     ∃ br, summarize (Cause := Cause) samples = inr br ∧
           count br = length samples ∧
           (N2Q (min br) <= median br ∧ median br <= N2Q (max br))%Q ∧
           (N2Q (min br) <= mean br ∧ mean br <= N2Q (max br))%Q) ∧
  summarize (Cause := Cause) [] = inl EmptySampleError ∧
  (∀ names x (R : Z) reg w os w' name br,
     run clock elem_type_of names x R reg w = (inr os, w') →
     (name, inr br) ∈ os →
     Z.of_nat (count br) = R).
Proof.
  split; [apply summarize_nonempty|]. split; [done|].
  intros names x R reg w os w' name br. unfold run.
  destruct (Z.ltb_spec R 1) as [?|HR]; [done|].
  destruct (resolve_all names (elem_type_of x) reg) as [e|ks]; [done|].
  pose proof (measure_all_count ks x (Z.to_nat R) w name br) as Hc.
  destruct (measure_all clock ks x (Z.to_nat R) w) as [os' w''].
  intros [= <- <-] Hin. rewrite (Hc Hin). lia.
Qed.

End Properties.

(** Five repetitions of [steady], and a run with zero repetitions. *)
Lemma run_sample_count_witness :
  run (λ w : N, w) Sample.real_only ["standard"; "flaky"] Sample.X3 0 Sample.registry1 0%N
  = (inl InvalidArgumentError, 0%N) ∧
  ∃ ds br,
    series (λ w : N, w) Sample.steady Sample.X3 1 (Z.to_nat 5) 0%N
    = (inr ds, after Sample.steady Sample.X3 (Z.to_nat 5) 0%N) ∧
    Z.of_nat (length ds) = 5%Z ∧
    summarize (Cause := string) ds = inr br ∧
    Z.of_nat (count br) = 5%Z ∧
    run (λ w : N, w) Sample.real_only ["standard"] Sample.X3 5 Sample.registry1 0%N
    = (inr [("standard", inr br)], after Sample.steady Sample.X3 (Z.to_nat 5) 0%N).
Proof.
  split.
  - apply (proj1 (run_sample_count (λ w : N, w) Sample.real_only "standard"
                    Sample.steady Sample.X3 0 Sample.registry1 0%N)).
    lia.
  - apply (proj2 (run_sample_count (λ w : N, w) Sample.real_only "standard"
                    Sample.steady Sample.X3 5 Sample.registry1 0%N)).
    + lia.
    + reflexivity.
    + reflexivity.
    + intros w0. eexists. reflexivity.
Defined.

(** [flaky] between two series of [steady]: its first two repetitions
    succeed, the third fails; both [steady] series are complete. *)
Lemma failure_isolation_witness :
  series (λ w : N, w) Sample.flaky Sample.X3 1 5 35%N
  = (inl (3, "no convergence"), 50%N) ∧
  run (λ w : N, w) Sample.real_only ["standard"; "flaky"; "standard"] Sample.X3 5
      Sample.registry1 0%N
  = (inr [("standard",
           inr {| count := 5; min := 7; max := 7; mean := 35 # 5; median := 7 # 1 |});
          ("flaky", inl (KernelExecutionError "flaky" 3 "no convergence"));
          ("standard",
           inr {| count := 5; min := 7; max := 7; mean := 35 # 5; median := 7 # 1 |})],
     85%N).
Proof.
  apply (failure_isolation (λ w : N, w) Sample.real_only
           ["standard"; "flaky"; "standard"]
           [("standard", Sample.steady)] [("standard", Sample.steady)]
           "flaky" Sample.flaky Sample.X3 5 Sample.registry1 0%N
           2 "no convergence").
  - lia.
  - reflexivity.
  - simpl. lia.
  - intros [|[|j]] Hj; [eexists; reflexivity | eexists; reflexivity | lia].
  - reflexivity.
Defined.

(** A second registration under "standard", and under a name registered
    just before. *)
Lemma register_duplicate_witness :
  (register (Cause := string) "standard" Sample.flaky Sample.registry1
   = (inl (DuplicateNameError "standard"), Sample.registry1) ∧
   ∀ ty, resolve (Cause := string) "standard" ty
           (snd (register "standard" Sample.flaky Sample.registry1))
         = resolve "standard" ty Sample.registry1) ∧
  (register (Cause := string) "dc" Sample.flaky (<["dc" := Sample.steady]> Sample.registry1)
   = (inl (DuplicateNameError "dc"), <["dc" := Sample.steady]> Sample.registry1) ∧
   ∀ ty, supports Sample.steady ty = true →
         resolve (Cause := string) "dc" ty
           (snd (register "dc" Sample.flaky (<["dc" := Sample.steady]> Sample.registry1)))
         = inr Sample.steady).
Proof.
  split.
  - apply (proj1 (register_duplicate "standard" Sample.steady Sample.flaky
                    Sample.registry1) Sample.steady).
    reflexivity.
  - apply (proj2 (register_duplicate "dc" Sample.steady Sample.flaky Sample.registry1)).
    reflexivity.
Defined.

(** Four samples, and the count reported by a run of five repetitions. *)
Lemma summarize_invariants_witness :
  (∃ br, summarize (Cause := string) [5; 1; 4; 2]%N = inr br ∧
         count br = length [5; 1; 4; 2]%N ∧
         (N2Q (min br) <= median br ∧ median br <= N2Q (max br))%Q ∧
         (N2Q (min br) <= mean br ∧ mean br <= N2Q (max br))%Q) ∧
  Z.of_nat (count {| count := 5; min := 7; max := 7;
                      mean := 35 # 5; median := 7 # 1 |}) = 5%Z.
Proof.
  pose proof (summarize_invariants (Cause := string) (λ w : N, w) Sample.real_only)
    as (Hbounds & _ & Hcount).
  split.
  - apply Hbounds. discriminate.
  - eapply (Hcount ["standard"; "flaky"] Sample.X3 5%Z Sample.registry1 0%N
              _ _ "standard" {| count := 5; min := 7; max := 7;
                                mean := 35 # 5; median := 7 # 1 |}).
    + reflexivity.
    + left.
Defined.

End HarnessFacts.

(** * Errors and side effects across the wrappers and the harness *)

Module Contract.

Import Arma Harness ArmaFacts HarnessFacts.

Lemma surfaced_drops_status {eT} (r : svd_result eT) (h : gmap loc obj) :
  drops_status (Some (surfaced r, h)) r h.
Proof. split; by intros; subst r. Qed.

(** C3 as stated does not hold: for the matrix [Xnan] the library reports
    a failed decomposition through its status, and [baseSVD] and [dcSVD]
    return the empty vector as an ordinary result. *)
Lemma failed_svd_not_surfaced :
  svd_real Sample.lib1 "standard" Sample.Xnan = svd_returns false empty_mat [] empty_mat ∧
  svd_failed (svd_real Sample.lib1 "standard" Sample.Xnan) ∧
  baseSVD Sample.lib1 3%positive Sample.heap1 = Some (Val [], Sample.heap1) ∧
  dcSVD Sample.lib1 3%positive Sample.heap1 = Some (Val [], Sample.heap1).
Proof.
  split; [reflexivity|]. split; [reflexivity|]. split.
  - by rewrite (baseSVD_run _ _ Sample.Xnan).
  - by rewrite (dcSVD_run _ _ Sample.Xnan).
Qed.

(** C3, amended: an exception raised in a kernel invocation reaches the
    caller of the wrapper, and the errors of the harness, the registry and
    the reporter are returned to their caller: an invalid repetition
    count and a registry error fail [run], and whenever one of the
    invocations that [run] is to make of a kernel fails, the result of
    [run] lists a [KernelExecutionError] for that kernel, with the index
    and the cause of its failing repetition.  A decomposition failure
    that the library reports through the status of [svd] is not surfaced:
    the wrapper drops the status and returns [S]. *)
Theorem errors_surfaced_except_svd_status :
  (∀ (lib : library) (X : loc) (h : gmap loc obj),
     (∀ x : mat, h !! X = Some (OMat x) →
        drops_status (baseSVD lib X h) (svd_real lib "standard" x) h ∧
        drops_status (dcSVD lib X h) (svd_real lib "dc" x) h) ∧
     (∀ z : cx_mat, h !! X = Some (OCxMat z) →
        drops_status (cxBaseSVD lib X h) (svd_cx lib "standard" z) h ∧
        drops_status (cxDcSVD lib X h) (svd_cx lib "dc" z) h)) ∧
  (∀ (W Matrix Cause : Type) (clock : W → N) (ety : Matrix → elem_type)
     (names : list string) (x : Matrix) (R : Z)
     (reg : gmap string (Kernel W Matrix Cause)) (w : W),
     ((R < 1)%Z → fst (run clock ety names x R reg w) = inl InvalidArgumentError) ∧
     ((1 ≤ R)%Z → ∀ name e0, name ∈ names → resolve name (ety x) reg = inl e0 →
        ∃ e name', fst (run clock ety names x R reg w) = inl e ∧
                   name' ∈ names ∧ resolve name' (ety x) reg = inl e) ∧
     (∀ name (k : Kernel W Matrix Cause) n w0 i c w',
        series clock k x 1 n w0 = (inl (i, c), w') →
        measure clock name k x n w0 = (inl (KernelExecutionError name i c), w')) ∧
     (∀ (pre post : list (string * Kernel W Matrix Cause)) name k (m : nat) c,
        (1 ≤ R)%Z →
        resolve_all names (ety x) reg = inr (pre ++ (name, k) :: post) →
        m < Z.to_nat R →
        fst (invoke k x (after k x m (snd (measure_all clock pre x (Z.to_nat R) w))))
        = inl c →
        ∃ os w' i c',
          run clock ety names x R reg w = (inr os, w') ∧
          1 ≤ i ≤ S m ∧
          fst (invoke k x (after k x (i - 1)
                             (snd (measure_all clock pre x (Z.to_nat R) w))))
          = inl c' ∧
          (name, inl (KernelExecutionError name i c')) ∈ os) ∧
     (∀ name k0 k, reg !! name = Some k0 →
        fst (register (Cause := Cause) name k reg) = inl (DuplicateNameError name)) ∧
     (∀ name ty, reg !! name = None →
        resolve (Cause := Cause) name ty reg = inl (UnknownKernelError name)) ∧
     (∀ name ty k, reg !! name = Some k → supports k ty = false →
        resolve (Cause := Cause) name ty reg = inl (UnsupportedTypeError name ty)) ∧
     summarize (Cause := Cause) [] = inl EmptySampleError).
Proof.
  split.
  - intros lib X h. split.
    + intros x Hx. rewrite (baseSVD_run lib X x h Hx), (dcSVD_run lib X x h Hx).
      split; apply surfaced_drops_status.
    + intros z Hz. rewrite (cxBaseSVD_run lib X z h Hz), (cxDcSVD_run lib X z h Hz).
      split; apply surfaced_drops_status.
  - intros W Matrix Cause clock ety names x R reg w. repeat split.
    + intros HR. unfold run. by destruct (Z.ltb_spec R 1) as [_|?]; [|lia].
    + intros HR name e0 Hin Hres.
      destruct (resolve_all_error names (ety x) reg name e0 Hin Hres)
        as (e & name' & Hall & Hin' & Hres').
      exists e, name'. split; [|done]. unfold run.
      destruct (Z.ltb_spec R 1) as [?|_]; [lia|]. by rewrite Hall.
    + intros name k n w0 i c w' Hs. unfold measure. by rewrite Hs.
    + intros pre post name k m c HR Hres Hm Hat.
      destruct (first_failure k x _ m c Hat) as (m0 & c0 & Hle & Hbefore & Hfail).
      eexists _, _, (S m0), c0. split.
      * apply (run_reports_failure clock ety names pre post name k x R reg w m0 c0);
          [done | done | lia | done | done].
      * split; [lia|]. split; [by replace (S m0 - 1) with m0 by lia|].
        apply elem_of_app. right. left.
    + intros name k0 k Hk0. unfold register. by rewrite Hk0.
    + intros name ty Hnone. unfold resolve. by rewrite Hnone.
    + intros name ty k Hk Hsup. unfold resolve. by rewrite Hk, Hsup.
Qed.

(** C4: no kernel invocation mutates the input matrix.  After a call of
    any of the four wrappers [X] designates the matrix it designated
    before, and a run of the harness over kernels that leave the matrix
    alone leaves it alone. *)
Theorem input_matrix_unchanged :
  (∀ (lib : library) (X : loc) (h : gmap loc obj),
     (∀ x : mat, h !! X = Some (OMat x) →
        keeps_input (baseSVD lib X h) X (OMat x) ∧
        keeps_input (dcSVD lib X h) X (OMat x)) ∧
     (∀ z : cx_mat, h !! X = Some (OCxMat z) →
        keeps_input (cxBaseSVD lib X h) X (OCxMat z) ∧
        keeps_input (cxDcSVD lib X h) X (OCxMat z))) ∧
  (∀ (W Matrix Cause C : Type) (clock : W → N) (ety : Matrix → elem_type)
     (content : W → Matrix → C)
     (names : list string) (x : Matrix) (R : Z)
     (reg : gmap string (Kernel W Matrix Cause)) (w : W),
     (∀ name k w0, reg !! name = Some k →
        content (snd (invoke k x w0)) x = content w0 x) →
     content (snd (run clock ety names x R reg w)) x = content w x).
Proof.
  split.
  - intros lib X h. split.
    + intros x Hx. rewrite (baseSVD_run lib X x h Hx), (dcSVD_run lib X x h Hx).
      split; by eexists _, _.
    + intros z Hz. rewrite (cxBaseSVD_run lib X z h Hz), (cxDcSVD_run lib X z h Hz).
      split; by eexists _, _.
  - intros W Matrix Cause C clock ety content names x R reg w Hreg.
    apply (run_preserves clock ety (λ w', content w' x = content w x)); [|done].
    intros name k w0 Hk <-. by apply (Hreg name).
Qed.

(** The sample kernels built from the wrappers leave the store alone. *)
Lemma as_kernel_keeps (f : loc → M vec) (ty : elem_type) (cost : N)
    (x : elem_type * loc) (w0 : gmap loc obj * N) :
  (∀ X h r h', f X h = Some (r, h') → h' = h) →
  Sample.content (snd (invoke (Sample.as_kernel f ty cost) x w0)) x = Sample.content w0 x.
Proof.
  intros Hf. destruct w0 as [h t]. unfold Sample.content. simpl.
  destruct (f (snd x) h) as [[[s|e] h']|] eqn:Hrun; simpl; [| |done].
  - by rewrite (Hf _ _ _ _ Hrun).
  - by rewrite (Hf _ _ _ _ Hrun).
Qed.

Lemma registry2_keeps (name : string) k (x : elem_type * loc) (w0 : gmap loc obj * N) :
  Sample.registry2 !! name = Some k →
  Sample.content (snd (invoke k x w0)) x = Sample.content w0 x.
Proof.
  unfold Sample.registry2. intros Hk.
  apply lookup_insert_Some in Hk as [[_ <-]|[_ Hk]].
  - apply as_kernel_keeps. intros X h r h'.
    apply baseSVD_frame.
  - apply lookup_singleton_Some in Hk as [_ <-].
    apply as_kernel_keeps. intros X h r h'.
    apply dcSVD_frame.
Qed.

(** The wrappers on the matrix the sample library fails on, a run that
    names an unregistered kernel, and a run in which [flaky] fails. *)
Lemma errors_surfaced_except_svd_status_witness :
  (drops_status (baseSVD Sample.lib1 3%positive Sample.heap1)
     (svd_real Sample.lib1 "standard" Sample.Xnan) Sample.heap1 ∧
   drops_status (dcSVD Sample.lib1 3%positive Sample.heap1)
     (svd_real Sample.lib1 "dc" Sample.Xnan) Sample.heap1) ∧
  (∃ e name',
     fst (run (λ w : N, w) Sample.real_only ["standard"; "nope"] Sample.X3 5
            Sample.registry1 0%N) = inl e ∧
     name' ∈ ["standard"; "nope"] ∧
     resolve name' (Sample.real_only Sample.X3) Sample.registry1 = inl e) ∧
  (∃ os w' i c',
     run (λ w : N, w) Sample.real_only ["standard"; "flaky"] Sample.X3 5
       Sample.registry1 0%N = (inr os, w') ∧
     1 ≤ i ≤ 5 ∧
     fst (invoke Sample.flaky Sample.X3 (after Sample.flaky Sample.X3 (i - 1) 35%N))
     = inl c' ∧
     ("flaky", inl (KernelExecutionError "flaky" i c')) ∈ os).
Proof.
  pose proof errors_surfaced_except_svd_status as [Hwrap Hharness].
  split; [|split].
  - apply (proj1 (Hwrap Sample.lib1 3%positive Sample.heap1) Sample.Xnan).
    reflexivity.
  - destruct (Hharness N mat string (λ w : N, w) Sample.real_only
                ["standard"; "nope"] Sample.X3 5%Z Sample.registry1 0%N)
      as (_ & Hres & _).
    apply (Hres ltac:(lia) "nope" (UnknownKernelError "nope")).
    + right. left.
    + reflexivity.
  - destruct (Hharness N mat string (λ w : N, w) Sample.real_only
                ["standard"; "flaky"] Sample.X3 5%Z Sample.registry1 0%N)
      as (_ & _ & _ & Hfail & _).
    apply (Hfail [("standard", Sample.steady)] [] "flaky" Sample.flaky 4
             "no convergence").
    + lia.
    + reflexivity.
    + simpl. lia.
    + reflexivity.
Defined.

(** The wrappers on the sample store, and a run of a hundred repetitions
    of [baseSVD] and [dcSVD] over it. *)
Lemma input_matrix_unchanged_witness :
  (keeps_input (baseSVD Sample.lib1 1%positive Sample.heap1) 1%positive (OMat Sample.X3) ∧
   keeps_input (dcSVD Sample.lib1 1%positive Sample.heap1) 1%positive (OMat Sample.X3)) ∧
  (keeps_input (cxBaseSVD Sample.lib1 2%positive Sample.heap1) 2%positive (OCxMat Sample.Z3) ∧
   keeps_input (cxDcSVD Sample.lib1 2%positive Sample.heap1) 2%positive (OCxMat Sample.Z3)) ∧
  Sample.content
    (snd (run snd fst ["baseSVD"; "dcSVD"] (RealElt, 1%positive) 100
            Sample.registry2 (Sample.heap1, 0%N)))
    (RealElt, 1%positive)
  = Sample.content (Sample.heap1, 0%N) (RealElt, 1%positive).
Proof.
  pose proof input_matrix_unchanged as [Hwrap Hrun].
  split; [|split].
  - apply (proj1 (Hwrap Sample.lib1 1%positive Sample.heap1) Sample.X3). reflexivity.
  - apply (proj2 (Hwrap Sample.lib1 2%positive Sample.heap1) Sample.Z3). reflexivity.
  - apply (Hrun (gmap loc obj * N)%type (elem_type * loc)%type exn (option obj)
             snd fst Sample.content).
    intros name k w0. apply registry2_keeps.
Defined.

End Contract.

(** * What the result of a wrapper depends on *)

Module ArmaDependence.

Import Arma ArmaFacts.

(** Two wrapper calls on a store in which [X] designates the matrix [x]
    have the same outcome exactly when the two library calls throw the
    same exception or leave the same [S]. *)
Lemma wrapper_agree (lib lib' : library) {eT} {E : SvdElt eT} (method method' : string)
    (X : loc) (x : Mat eT) (h : gmap loc obj) :
  h !! X = Some (to_obj x) →
  wrapper lib method X h = wrapper lib' method' X h
  ↔ surfaced (lib_svd lib method x) = surfaced (lib_svd lib' method' x).
Proof.
  intros HX.
  rewrite (wrapper_run lib method X x h HX), (wrapper_run lib' method' X x h HX).
  split; [by intros [= ->] | by intros ->].
Qed.

(** Of everything the library call produces, a wrapper uses the thrown
    exception or the vector [S] and nothing else: two libraries that
    differ in [U], in [V] or in the status they report, but not in the
    exception or in [S], are indistinguishable through any of the four
    wrappers, and two libraries that differ in the exception or in [S]
    are distinguished. *)
Theorem wrappers_depend_on_S_only (lib lib' : library) (X : loc) (h : gmap loc obj) :
  (∀ x : mat, h !! X = Some (OMat x) →
     (baseSVD lib X h = baseSVD lib' X h
      ↔ surfaced (svd_real lib "standard" x) = surfaced (svd_real lib' "standard" x)) ∧
     (dcSVD lib X h = dcSVD lib' X h
      ↔ surfaced (svd_real lib "dc" x) = surfaced (svd_real lib' "dc" x))) ∧
  (∀ z : cx_mat, h !! X = Some (OCxMat z) →
     (cxBaseSVD lib X h = cxBaseSVD lib' X h
      ↔ surfaced (svd_cx lib "standard" z) = surfaced (svd_cx lib' "standard" z)) ∧
     (cxDcSVD lib X h = cxDcSVD lib' X h
      ↔ surfaced (svd_cx lib "dc" z) = surfaced (svd_cx lib' "dc" z))).
Proof.
  split.
  - intros x Hx. split.
    + exact (wrapper_agree lib lib' (eT := double) "standard" "standard" X x h Hx).
    + exact (wrapper_agree lib lib' (eT := double) "dc" "dc" X x h Hx).
  - intros z Hz. split.
    + exact (wrapper_agree lib lib' (eT := cx_double) "standard" "standard" X z h Hz).
    + exact (wrapper_agree lib lib' (eT := cx_double) "dc" "dc" X z h Hz).
Qed.

(** The two sample libraries, which report opposite statuses and exchange
    [U] and [V], on the matrix both decompose and on the one both fail on. *)
Lemma wrappers_depend_on_S_only_witness :
  baseSVD Sample.lib1 1%positive Sample.heap1 = baseSVD Sample.lib2 1%positive Sample.heap1 ∧
  dcSVD Sample.lib1 3%positive Sample.heap1 = dcSVD Sample.lib2 3%positive Sample.heap1 ∧
  cxDcSVD Sample.lib1 2%positive Sample.heap1 = cxDcSVD Sample.lib2 2%positive Sample.heap1.
Proof.
  split; [|split].
  - apply (proj1 (wrappers_depend_on_S_only Sample.lib1 Sample.lib2 1%positive
                    Sample.heap1) Sample.X3); reflexivity.
  - apply (proj1 (wrappers_depend_on_S_only Sample.lib1 Sample.lib2 3%positive
                    Sample.heap1) Sample.Xnan); reflexivity.
  - apply (proj2 (wrappers_depend_on_S_only Sample.lib1 Sample.lib2 2%positive
                    Sample.heap1) Sample.Z3); reflexivity.
Defined.

(** The wrappers of a pair differ in the method string alone: on the same
    matrix [baseSVD] and [dcSVD] (and likewise [cxBaseSVD] and [cxDcSVD])
    have the same outcome exactly when the library throws the same
    exception or leaves the same [S] under "standard" and under "dc". *)
Theorem paired_wrappers_differ_by_method (lib : library) (X : loc) (h : gmap loc obj) :
  (∀ x : mat, h !! X = Some (OMat x) →
     (baseSVD lib X h = dcSVD lib X h
      ↔ surfaced (svd_real lib "standard" x) = surfaced (svd_real lib "dc" x))) ∧
  (∀ z : cx_mat, h !! X = Some (OCxMat z) →
     (cxBaseSVD lib X h = cxDcSVD lib X h
      ↔ surfaced (svd_cx lib "standard" z) = surfaced (svd_cx lib "dc" z))).
Proof.
  split.
  - intros x Hx.
    exact (wrapper_agree lib lib (eT := double) "standard" "dc" X x h Hx).
  - intros z Hz.
    exact (wrapper_agree lib lib (eT := cx_double) "standard" "dc" X z h Hz).
Qed.

(** The sample library selects no routine by the method, so the wrappers
    of each pair agree on it. *)
Lemma paired_wrappers_differ_by_method_witness :
  baseSVD Sample.lib1 1%positive Sample.heap1 = dcSVD Sample.lib1 1%positive Sample.heap1 ∧
  cxBaseSVD Sample.lib1 2%positive Sample.heap1 = cxDcSVD Sample.lib1 2%positive Sample.heap1.
Proof.
  split.
  - apply (proj1 (paired_wrappers_differ_by_method Sample.lib1 1%positive
                    Sample.heap1) Sample.X3); reflexivity.
  - apply (proj2 (paired_wrappers_differ_by_method Sample.lib1 2%positive
                    Sample.heap1) Sample.Z3); reflexivity.
Defined.

End ArmaDependence.
